(** * Callback patterns of the nc-posts snippets

    The code embedded here:

    - the counter-based fan-in loop of the "Concurrency" article
      (node-patterns-concurrency, the last listing), module [FanIn], and
      the two listings that precede it, module [FanInListings];
    - [getCustomers], the CSV-to-JSON reader, in its plain version
      (file-read.js) and in its [okay] version (file-read-with-okay.js),
      module [Customers], with [CustomersText] for the lines of the file;
    - the error-first listings: the [writeFile] closure and
      [generateRandomNumber] with its caller, module [ErrorFirst];
    - the dependency map of the server-push middleware, module
      [ServerPush].

    JavaScript runs every callback to completion, one at a time; the
    embedding threads one explicit state through the script and through the
    callbacks in the order in which the event loop runs them. *)

From stdpp Require Import base gmap list strings.
From Stdlib Require Import Ascii.

(** Values a JavaScript [throw] can carry in these snippets. *)
Inductive js_error :=
  | TypeError (msg : string)
  | Error (msg : string).

(* ===================================================================== *)
(** * The fan-in counter loop *)
(* ===================================================================== *)

(** <<
    var j = 0
    var responses = {}
    for (var i = 1; i<=10; i++) {
      makeRequest(i, function(response) {
        j++
        console.log(response)
        responses[i] = (response)
        if (j == 10) processResponses(responses)
      })
    }
    >>
    The literal 10 occurs twice, as the loop bound and in the guard; it is
    the parameter [n] below ([N] is the value of the listing).
    [makeRequest] and [processResponses] are not defined by the article:
    [makeRequest] is asynchronous ("async, that's why callback"), so it only
    registers the request and its callback runs in a later turn of the event
    loop; [processResponses] is the caller's continuation, a parameter that
    either returns or throws. *)
Module FanIn.

Definition N : nat := 10.

Section Coordinator.
Context {Response : Type}.

(** The continuation: [None] when it returns, [Some e] when it throws [e]. *)
Variable processResponses : gmap nat Response → option js_error.

(** The variables of the script. [var] gives [i] a single binding, shared
    by the loop and by every callback the loop creates. *)
Record state := State {
  i : nat;
  j : nat;
  responses : gmap nat Response;
  (** first arguments of the [makeRequest] calls made so far *)
  requests : list nat;
  (** arguments of the [console.log] calls *)
  console : list Response;
  (** contents of [responses] at each call of [processResponses] *)
  handled : list (gmap nat Response)
}.

Definition set_i (v : nat) (s : state) : state :=
  State v (j s) (responses s) (requests s) (console s) (handled s).
Definition set_j (v : nat) (s : state) : state :=
  State (i s) v (responses s) (requests s) (console s) (handled s).
Definition set_responses (m : gmap nat Response) (s : state) : state :=
  State (i s) (j s) m (requests s) (console s) (handled s).
Definition console_log (r : Response) (s : state) : state :=
  State (i s) (j s) (responses s) (requests s) (console s ++ [r]) (handled s).
Definition makeRequest (k : nat) (s : state) : state :=
  State (i s) (j s) (responses s) (requests s ++ [k]) (console s) (handled s).
Definition call_handler (s : state) : state * option js_error :=
  (State (i s) (j s) (responses s) (requests s) (console s)
         (handled s ++ [responses s]),
   processResponses (responses s)).

(** [var j = 0; var responses = {}] *)
Definition initial : state := State 0 0 ∅ [] [] [].

(** The callback handed to every [makeRequest]. It reads [i] when it
    runs, not when it was created. *)
Definition callback (n : nat) (response : Response) (s : state)
  : state * option js_error :=
  let s := set_j (S (j s)) s in
  let s := console_log response s in
  let s := set_responses (<[i s := response]> (responses s)) s in
  if j s =? n then call_handler s else (s, None).

(** [for (...; i<=n; i++) makeRequest(i, callback)], entered after the
    initialiser; [None] when the fuel runs out before the test fails. *)
Fixpoint for_loop (fuel n : nat) (s : state) : option state :=
  match fuel with
  | 0 => None
  | S fuel' =>
      if i s <=? n
      then let s := makeRequest (i s) s in
           for_loop fuel' n (set_i (S (i s)) s)
      else Some s
  end.

(** The script itself: the declarations and the loop. *)
Definition script (n : nat) : option state :=
  for_loop (S n) n (set_i 1 initial).

(** Later turns of the event loop: a report [(k, r)] is the completion of
    the request that was made with first argument [k], which calls the
    callback with [r]. An exception that leaves a callback is uncaught and
    ends the process: the reports after it are not delivered. *)
Fixpoint deliver (n : nat) (reports : list (nat * Response)) (s : state)
  : state * option js_error :=
  match reports with
  | [] => (s, None)
  | (_, r) :: rest =>
      match callback n r s with
      | (s', None) => deliver n rest s'
      | (s', Some e) => (s', Some e)
      end
  end.

Definition run (n : nat) (reports : list (nat * Response))
  : option (state * option js_error) :=
  match script n with
  | Some s => Some (deliver n reports s)
  | None => None
  end.

(** Observations of a finished run. *)
Definition invocations (r : option (state * option js_error))
  : list (gmap nat Response) :=
  match r with Some (s, _) => handled s | None => [] end.
Definition counter (r : option (state * option js_error)) : nat :=
  match r with Some (s, _) => j s | None => 0 end.
Definition result_set (r : option (state * option js_error))
  : gmap nat Response :=
  match r with Some (s, _) => responses s | None => ∅ end.
Definition uncaught (r : option (state * option js_error))
  : option js_error :=
  match r with Some (_, e) => e | None => None end.

End Coordinator.

Arguments state : clear implicits.

(** A continuation that returns, and one that throws [e]. *)
Definition returns {Response} : gmap nat Response → option js_error :=
  λ _, None.
Definition throws {Response} (e : js_error)
  : gmap nat Response → option js_error :=
  λ _, Some e.

(** What a task hands to its callback when responses are outcomes. *)
Inductive outcome :=
  | Success (v : nat)
  | Failure (reason : string).

(** Completion orders used below: tasks keyed 1, 2, 3 (a, b, c) with values
    1, 2, 3 completing in the order c, a, b; the ten tasks of the listing,
    task [k] answering [100 + k], in ascending order and with task 2 last. *)
Definition c_a_b : list (nat * nat) := [(3, 3); (1, 1); (2, 2)].
Definition ascending : list (nat * nat) :=
  [(1, 101); (2, 102); (3, 103); (4, 104); (5, 105);
   (6, 106); (7, 107); (8, 108); (9, 109); (10, 110)].
Definition two_last : list (nat * nat) :=
  [(1, 101); (3, 103); (4, 104); (5, 105); (6, 106);
   (7, 107); (8, 108); (9, 109); (10, 110); (2, 102)].

(** Task b fails with "timeout" before a and c complete. *)
Definition b_fails : list (nat * outcome) := [(2, Failure "timeout")].
Definition b_fails_then_a_c : list (nat * outcome) :=
  [(2, Failure "timeout"); (1, Success 1); (3, Success 3)].

End FanIn.


(* ===================================================================== *)
(** * getCustomers: customers.csv to customers.json *)
(* ===================================================================== *)

Module Customers.

(** ** Strings

    A JavaScript string is represented by its UTF-8 bytes ([readFile] with
    'utf8' yields well-formed text). Splitting on the one-byte separators
    of the code and JSON quoting act on such text byte by byte. *)

Definition LF : ascii := ascii_of_nat 10.
Definition comma : ascii := ascii_of_nat 44.
Definition dquote : ascii := ascii_of_nat 34.
Definition backslash : ascii := ascii_of_nat 92.

Definition str (c : ascii) : string := String c EmptyString.

(** [s.split(sep)] for a separator of one character: never an empty array,
    one more element than there are separators. *)
Fixpoint split (sep : ascii) (s : string) : list string :=
  match s with
  | EmptyString => [EmptyString]
  | String c rest =>
      if Ascii.eqb c sep then EmptyString :: split sep rest
      else match split sep rest with
           | x :: xs => String c x :: xs
           | [] => [str c]
           end
  end.

(** [parts.join(sep)] *)
Fixpoint join (sep : string) (parts : list string) : string :=
  match parts with
  | [] => EmptyString
  | [x] => x
  | x :: rest => x +:+ sep +:+ join sep rest
  end.

(** ** JSON.stringify (ECMAScript, SerializeJSONProperty and below) *)

(** The values the code builds: strings, [undefined] (an array index past
    the end), arrays, and objects with their properties in creation order. *)
#[local] Unset Elimination Schemes.
Inductive value :=
  | VString (s : string)
  | VUndefined
  | VArray (elems : list value)
  | VObject (props : list (string * value)).
#[local] Set Elimination Schemes.

Definition hex_digit (d : nat) : ascii :=
  ascii_of_nat (if d <? 10 then 48 + d else 87 + d).

(** UnicodeEscape of a code unit below 256 *)
Definition unicode_escape (c : ascii) : string :=
  let k := nat_of_ascii c in
  String backslash
    (String "u" (String "0" (String "0"
       (String (hex_digit (k / 16)) (str (hex_digit (k mod 16))))))).

Definition quote_char (c : ascii) : string :=
  let k := nat_of_ascii c in
  if k =? 8 then String backslash "b"
  else if k =? 9 then String backslash "t"
  else if k =? 10 then String backslash "n"
  else if k =? 12 then String backslash "f"
  else if k =? 13 then String backslash "r"
  else if k =? 34 then String backslash (str dquote)
  else if k =? 92 then String backslash (str backslash)
  else if k <? 32 then unicode_escape c
  else str c.

Fixpoint quote_chars (s : string) : string :=
  match s with
  | EmptyString => EmptyString
  | String c rest => quote_char c +:+ quote_chars rest
  end.

Definition QuoteJSONString (s : string) : string :=
  str dquote +:+ quote_chars s +:+ str dquote.

Definition is_empty (s : string) : bool :=
  match s with EmptyString => true | _ => false end.

(** The brackets around the serialised members, for both arrays and
    objects: [stepback] is the indentation before, [indent] the one of the
    members. *)
Definition wrap (opening closing gap stepback indent : string)
    (partial : list string) : string :=
  match partial with
  | [] => opening +:+ closing
  | _ =>
      if is_empty gap
      then opening +:+ join "," partial +:+ closing
      else opening +:+ str LF +:+ indent
           +:+ join ("," +:+ str LF +:+ indent) partial
           +:+ str LF +:+ stepback +:+ closing
  end.

(** [None] is the specification's [undefined]: the property is left out of
    an object, and an array element is written as null. *)
Fixpoint SerializeJSONProperty (gap indent : string) (v : value)
  : option string :=
  match v with
  | VString s => Some (QuoteJSONString s)
  | VUndefined => None
  | VArray elems =>
      let stepback := indent in
      let indent := indent +:+ gap in
      let partial :=
        List.map (λ e, match SerializeJSONProperty gap indent e with
                       | Some strP => strP
                       | None => "null"
                       end) elems in
      Some (wrap "[" "]" gap stepback indent partial)
  | VObject props =>
      let stepback := indent in
      let indent := indent +:+ gap in
      let partial :=
        omap (λ p, match SerializeJSONProperty gap indent (snd p) with
                   | Some strP =>
                       Some (QuoteJSONString (fst p) +:+ ":"
                             +:+ (if is_empty gap then EmptyString else " ")
                             +:+ strP)
                   | None => None
                   end) props in
      Some (wrap "{" "}" gap stepback indent partial)
  end.

Fixpoint spaces (k : nat) : string :=
  match k with 0 => EmptyString | S k' => String " " (spaces k') end.

(** [JSON.stringify(v, 0, space)] for a number [space]: the replacer 0 is
    neither a function nor an array and is ignored; the gap is [space]
    spaces, at most 10. *)
Definition JSON_stringify (v : value) (space : nat) : option string :=
  SerializeJSONProperty (spaces (Nat.min 10 space)) EmptyString v.

(** ** The environment *)

(** [fs.Stats], as far as the code looks at it *)
Record Stats := { isFile : bool }.

(** What the file system answers to each call of the code. *)
Record FileSystem := {
  stat : string → js_error + Stats;
  readFile : string → js_error + string;
  writeFile : string → string → option js_error
}.

Record customer := { id : option string; first_name : option string }.

(** An argument of a call of the user's callback. *)
Inductive arg :=
  | Null
  | Err (e : js_error)
  | Str (s : string).

Inductive event :=
  | ConsoleLog (customers : list customer)
  | ConsoleError (msg : string)
  | WriteFile (path data : string)
  | Callback (args : list arg).

(** ** Effects: a trace of events, and either a value or an uncaught
    exception. *)
Record M (A : Type) := Run { trace : list event; outcome : js_error + A }.
Arguments Run {A} _ _.
Arguments trace {A} _.
Arguments outcome {A} _.

Definition ret {A} (a : A) : M A := Run [] (inr a).
Definition throw {A} (e : js_error) : M A := Run [] (inl e).
Definition emit (ev : event) : M unit := Run [ev] (inr tt).
Definition bind {A B} (m : M A) (k : A → M B) : M B :=
  match outcome m with
  | inl e => Run (trace m) (inl e)
  | inr a => Run (trace m ++ trace (k a)) (outcome (k a))
  end.

Notation "'do' x <- m ; k" := (bind m (λ x, k))
  (at level 10, x name, m at level 100, k at level 200).
Notation "m ;;; k" := (bind m (λ _, k))
  (at level 100, k at level 200, right associativity).

(** A call of the user's callback: the call is an event, and the callback
    ([None] when it returns, [Some e] when it throws [e]) may throw. *)
Definition invoke (callback : list arg → option js_error) (args : list arg)
  : M unit :=
  emit (Callback args) ;;;
  match callback args with
  | Some e => throw e
  | None => ret tt
  end.

(** Node calls a callback with [(error)] on failure and with
    [(null, data)] on success; a missing argument is [undefined], [None]
    below. *)
Definition fs_stat (fs : FileSystem) (path : string)
    (k : option js_error → option Stats → M unit) : M unit :=
  match stat fs path with
  | inl e => k (Some e) None
  | inr stats => k None (Some stats)
  end.

Definition fs_readFile (fs : FileSystem) (path : string)
    (k : option js_error → option string → M unit) : M unit :=
  match readFile fs path with
  | inl e => k (Some e) None
  | inr data => k None (Some data)
  end.

Definition fs_writeFile (fs : FileSystem) (path data : string)
    (k : option js_error → M unit) : M unit :=
  emit (WriteFile path data) ;;; k (writeFile fs path data).

(** [stats.isFile()]; a property access on [undefined] throws. *)
Definition stats_isFile (stats : option Stats) : M bool :=
  match stats with
  | Some st => ret (isFile st)
  | None =>
      throw (TypeError "Cannot read properties of undefined (reading 'isFile')")
  end.

(** [customersCSV.split(sep)] *)
Definition string_split (sep : ascii) (s : option string) : M (list string) :=
  match s with
  | Some s => ret (split sep s)
  | None =>
      throw (TypeError "Cannot read properties of undefined (reading 'split')")
  end.

Definition inputFile : string := "./customers.csv".

(** <<
    function(customerLine){
      customerArray = customerLine.split(',')
      return { id: customerArray[0], first_name: customerArray[1] }
    }
    >> *)
Definition customer_of_line (customerLine : string) : customer :=
  let customerArray := split comma customerLine in
  {| id := customerArray !! 0; first_name := customerArray !! 1 |}.

Definition property (o : option string) : value :=
  match o with Some s => VString s | None => VUndefined end.

Definition customer_value (c : customer) : value :=
  VObject [("id", property (id c)); ("first_name", property (first_name c))].

(** [JSON.stringify(customers, 0, 4)]. An array never serialises to
    [undefined]; that branch is what [fs.writeFile] does with such data. *)
Definition stringify_customers (customers : list customer) : M string :=
  match JSON_stringify (VArray (List.map customer_value customers)) 4 with
  | Some customersJSON => ret customersJSON
  | None => throw (TypeError "The data argument must be of type string")
  end.

(** The plain version (file-read.js). *)
Definition getCustomers (fs : FileSystem)
    (callback : list arg → option js_error) : M unit :=
  fs_stat fs inputFile (λ error stats,
    do file <- stats_isFile stats;
    if file : bool then
      fs_readFile fs inputFile (λ error customersCSV,
        match error with
        | Some e => invoke callback [Err e]
        | None =>
            do lines <- string_split LF customersCSV;
            let customers := List.map customer_of_line lines in
            emit (ConsoleLog customers) ;;;
            do customersJSON <- stringify_customers customers;
            fs_writeFile fs "./customers.json" customersJSON (λ error,
              match error with
              | Some e => invoke callback [Err e]
              | None => invoke callback [Null; Str customersJSON]
              end)
        end)
    else
      emit (ConsoleError "The input CSV file is not found")).

(** Modelled from the spec: [okay] is an npm package, its source is not in
    the repository. The article introduces it as doing "the repetitive work
    of checking for errors" so that there is "NO NEED for
    if (error) return callback(error)": [okay(callback, success)] is the
    function that hands an error to [callback] and otherwise calls
    [success] with the remaining arguments. *)
Definition okay {T} (callback : list arg → option js_error)
    (success : option T → M unit) : option js_error → option T → M unit :=
  λ error data,
    match error with
    | Some e => invoke callback [Err e]
    | None => success data
    end.

(** The version of file-read-with-okay.js. *)
Definition getCustomers_okay (fs : FileSystem)
    (callback : list arg → option js_error) : M unit :=
  fs_stat fs inputFile (λ error stats,
    do file <- stats_isFile stats;
    if file : bool then
      fs_readFile fs inputFile (okay callback (λ customersCSV,
        do lines <- string_split LF customersCSV;
        let customers := List.map customer_of_line lines in
        emit (ConsoleLog customers) ;;;
        do customersJSON <- stringify_customers customers;
        fs_writeFile fs "./customers.json" customersJSON (λ error,
          okay callback (λ _ : option unit,
            invoke callback [Null; Str customersJSON]) error None)))
    else
      emit (ConsoleError "The input CSV file is not found")).

(** The calls of the user's callback in a trace, in order. *)
Definition callback_calls (t : list event) : list (list arg) :=
  omap (λ ev, match ev with Callback args => Some args | _ => None end) t.

(** ** The words of the description of the success path *)

(** The text of [s] before the first [sep], and the text after it if there
    is one. *)
Fixpoint before (sep : ascii) (s : string) : string :=
  match s with
  | EmptyString => EmptyString
  | String c rest =>
      if Ascii.eqb c sep then EmptyString else String c (before sep rest)
  end.

Fixpoint after (sep : ascii) (s : string) : option string :=
  match s with
  | EmptyString => None
  | String c rest => if Ascii.eqb c sep then Some rest else after sep rest
  end.

(** The [k]-th comma-separated field of a line, counted from 0; the line
    may have fewer fields. *)
Fixpoint spec_field (k : nat) (line : string) : option string :=
  match k with
  | 0 => Some (before comma line)
  | S k' =>
      match after comma line with
      | Some rest => spec_field k' rest
      | None => None
      end
  end.

(** "the array obtained by splitting s on newline and mapping each line to
    an object whose id is the line's first comma-separated field and whose
    first_name is its second" *)
Definition spec_customers (s : string) : list customer :=
  List.map (λ line, {| id := spec_field 0 line; first_name := spec_field 1 line |})
           (split LF s).

(** "the JSON serialization (4-space indentation)" of that array *)
Definition spec_json (s : string) : option string :=
  JSON_stringify (VArray (List.map customer_value (spec_customers s))) 4.

(** ** Sample environments *)

(** Two lines, the second without a comma. *)
Definition sample_csv : string := "1,Ann" +:+ str LF +:+ "2".

Definition sample_json : string :=
  join (str LF)
    ["[";
     "    {";
     "        " +:+ QuoteJSONString "id" +:+ ": " +:+ QuoteJSONString "1" +:+ ",";
     "        " +:+ QuoteJSONString "first_name" +:+ ": " +:+ QuoteJSONString "Ann";
     "    },";
     "    {";
     "        " +:+ QuoteJSONString "id" +:+ ": " +:+ QuoteJSONString "2";
     "    }";
     "]"].

(** The file is there and can be read and written. *)
Definition fs_ok : FileSystem :=
  {| stat := λ _, inr {| isFile := true |};
     readFile := λ _, inr sample_csv;
     writeFile := λ _ _, None |}.

(** There is no ./customers.csv. *)
Definition fs_missing : FileSystem :=
  {| stat := λ _, inl (Error "ENOENT: no such file or directory");
     readFile := λ _, inl (Error "ENOENT: no such file or directory");
     writeFile := λ _ _, None |}.

(** ./customers.csv is a directory. *)
Definition fs_directory : FileSystem :=
  {| stat := λ _, inr {| isFile := false |};
     readFile := λ _, inl (Error "EISDIR: illegal operation on a directory");
     writeFile := λ _ _, None |}.

(** A callback that returns. *)
Definition quiet : list arg → option js_error := λ _, None.

End Customers.


(* ===================================================================== *)
(** * The earlier listings of the Concurrency article *)
(* ===================================================================== *)

(** Before it arrives at the counter, the article tries the continuation in
    two other places:
    <<
    var responses = {}
    for (var i = 1; i<=10; i++) {
      makeRequest(i, function(response) {
        console.log(response)
        responses[i] = (response)
      })
    }
    console.log(responses)
    processResponses(responses)
    >>
    and
    <<
    var responses = {}
    for (var i = 1; i<=10; i++) {
      makeRequest(i, function(response) {
        console.log(response)
        responses[i] = (response)
        processResponses(responses)
      })
    }
    >>
    Neither has the counter [j]; the first one also prints the responses
    object, so the console holds two kinds of entries. *)
Module FanInListings.

Section Listings.
Context {Response : Type}.
Variable processResponses : gmap nat Response → option js_error.

Inductive logged :=
  | LogResponse (r : Response)
  | LogResponses (m : gmap nat Response).

Record lstate := LState {
  i : nat;
  responses : gmap nat Response;
  requests : list nat;
  console : list logged;
  handled : list (gmap nat Response)
}.

Definition set_i (v : nat) (s : lstate) : lstate :=
  LState v (responses s) (requests s) (console s) (handled s).
Definition set_responses (m : gmap nat Response) (s : lstate) : lstate :=
  LState (i s) m (requests s) (console s) (handled s).
Definition console_log (x : logged) (s : lstate) : lstate :=
  LState (i s) (responses s) (requests s) (console s ++ [x]) (handled s).
Definition makeRequest (k : nat) (s : lstate) : lstate :=
  LState (i s) (responses s) (requests s ++ [k]) (console s) (handled s).
Definition call_handler (s : lstate) : lstate * option js_error :=
  (LState (i s) (responses s) (requests s) (console s)
          (handled s ++ [responses s]),
   processResponses (responses s)).

(** [var responses = {}] *)
Definition initial : lstate := LState 0 ∅ [] [] [].

Fixpoint for_loop (fuel n : nat) (s : lstate) : option lstate :=
  match fuel with
  | 0 => None
  | S fuel' =>
      if i s <=? n
      then let s := makeRequest (i s) s in
           for_loop fuel' n (set_i (S (i s)) s)
      else Some s
  end.

(** The callback of the first listing: it prints and stores. *)
Definition callback_store (response : Response) (s : lstate)
  : lstate * option js_error :=
  let s := console_log (LogResponse response) s in
  let s := set_responses (<[i s := response]> (responses s)) s in
  (s, None).

(** The callback of the second listing: it prints, stores and continues. *)
Definition callback_continue (response : Response) (s : lstate)
  : lstate * option js_error :=
  let s := console_log (LogResponse response) s in
  let s := set_responses (<[i s := response]> (responses s)) s in
  call_handler s.

Fixpoint deliver (callback : Response → lstate → lstate * option js_error)
    (reports : list (nat * Response)) (s : lstate)
  : lstate * option js_error :=
  match reports with
  | [] => (s, None)
  | (_, r) :: rest =>
      match callback r s with
      | (s', None) => deliver callback rest s'
      | (s', Some e) => (s', Some e)
      end
  end.

(** The first listing: the loop, then [console.log(responses)] and the
    continuation, all in the first turn; the reports come afterwards, unless
    the continuation has thrown and ended the process. *)
Definition run_after_loop (n : nat) (reports : list (nat * Response))
  : option (lstate * option js_error) :=
  match for_loop (S n) n (set_i 1 initial) with
  | Some s =>
      let s := console_log (LogResponses (responses s)) s in
      match call_handler s with
      | (s', None) => Some (deliver callback_store reports s')
      | (s', Some e) => Some (s', Some e)
      end
  | None => None
  end.

(** The second listing. *)
Definition run_in_callback (n : nat) (reports : list (nat * Response))
  : option (lstate * option js_error) :=
  match for_loop (S n) n (set_i 1 initial) with
  | Some s => Some (deliver callback_continue reports s)
  | None => None
  end.

End Listings.

Arguments lstate : clear implicits.
Arguments logged : clear implicits.

End FanInListings.


(* ===================================================================== *)
(** * The text of customers.csv *)
(* ===================================================================== *)

Module CustomersText.
Import Customers.

(** How often [c] occurs in [s]. *)
Fixpoint count_char (c : ascii) (s : string) : nat :=
  match s with
  | EmptyString => 0
  | String c' rest =>
      (if Ascii.eqb c' c then 1 else 0) + count_char c rest
  end.

(** <<
    customersCSV.split('\n').map(function(customerLine){ ... })
    >>
    the array that [getCustomers] prints and serialises. *)
Definition customers_of_csv (customersCSV : string) : list customer :=
  List.map customer_of_line (split LF customersCSV).

(** ./customers.csv is a regular file that cannot be read. *)
Definition fs_unreadable : FileSystem :=
  {| stat := λ _, inr {| isFile := true |};
     readFile := λ _, inl (Error "EACCES: permission denied");
     writeFile := λ _ _, None |}.

(** The input can be read; ./customers.json cannot be written. *)
Definition fs_readonly : FileSystem :=
  {| stat := λ _, inr {| isFile := true |};
     readFile := λ _, inr sample_csv;
     writeFile := λ _ _, Some (Error "EROFS: read-only file system") |}.

(** A callback that throws whatever it is called with. *)
Definition angry : list arg → option js_error :=
  λ _, Some (Error "callback failed").

End CustomersText.


(* ===================================================================== *)
(** * Error-first callbacks: the other listings *)
(* ===================================================================== *)

(** The two forms of the [writeFile] closure of the "Async Error Handling"
    section, and [generateRandomNumber] with its caller from the "Beautiful
    Functions" section. The code tests values for truthiness and compares
    them with [>]; what these do on JavaScript values is left to the
    parameters [truthy] and [greater]. *)
Module ErrorFirst.

(** ** The writeFile closure *)

Section Closure.
Context {Value Customers Result : Type}.

(** ToBoolean of the value passed as [error] *)
Variable truthy : Value → bool.

Inductive carg :=
  | CNull
  | CError (error : Value)
  | CData (customers : Customers).

(** <<
    module.exports = function(inputFile, customers, callback){
      return function writeFile(error){
        if (!error) {
          return callback(null, customers)
        } else {
          return callback(error)
        }
      }
    }
    >> *)
Definition writeFile (inputFile : string) (customers : Customers)
    (callback : list carg → Result) : Value → Result :=
  λ error,
    if negb (truthy error) then callback [CNull; CData customers]
    else callback [CError error].

(** <<
    module.exports = function(inputFile, customers, callback){
      return function writeFile(error){
        if (error) return callback(error)
        return callback(null, customers)
      }
    }
    >> *)
Definition writeFile_compact (inputFile : string) (customers : Customers)
    (callback : list carg → Result) : Value → Result :=
  λ error,
    if truthy error then callback [CError error]
    else callback [CNull; CData customers].

End Closure.

(** ** generateRandomNumber *)

Section Random.
Context {Value : Type}.

Variable truthy : Value → bool.
(** [greater a b] is [a > b] *)
Variable greater : Value → Value → bool.
(** [slowButGoodRandomGenerator] is not defined by the article; it is taken
    to call its callback once, with the pair [(error, number)] given here. *)
Variable slowButGoodRandomGenerator : Value → Value * Value.

Inductive rarg :=
  | RNull
  | RUndefined
  | RNewError (msg : string)
  | RValue (v : Value).

Inductive revent :=
  | Generate (limit : Value)
  | Called (args : list rarg)
  | ConsoleError (x : rarg)
  | ConsoleLog (x : rarg).

Definition truthy_arg (x : rarg) : bool :=
  match x with
  | RNull | RUndefined => false
  | RNewError _ => true
  | RValue v => truthy v
  end.

(** <<
    const generateRandomNumber = (limit, callback) => {
      if (!limit) return callback(new Error('Limit not provided'))
      slowButGoodRandomGenerator(limit, (error, number) => {
        if (number > limit) {
          callback(new Error('Oooops, ...'), null)
        } else {
          if (error) return callback(error, number)
          return callback(null, number)
        }
      })
    }
    >> *)
Definition generateRandomNumber (limit : Value)
    (callback : list rarg → list revent) : list revent :=
  if negb (truthy limit) then callback [RNewError "Limit not provided"]
  else
    Generate limit ::
    let '(error, number) := slowButGoodRandomGenerator limit in
    if greater number limit then
      callback [RNewError "Oooops, something went wrong. Number is higher than the limit. Check slow function."; RNull]
    else if truthy error then callback [RValue error; RValue number]
    else callback [RNull; RValue number].

(** A callback that only records how it is called. *)
Definition record (args : list rarg) : list revent := [Called args].

(** <<
    (error, number) => {
      if (error) {
        console.error(error)
      } else {
        console.log(number)
      }
    }
    >> *)
Definition print_result (args : list rarg) : list revent :=
  let error := nth 0 args RUndefined in
  let number := nth 1 args RUndefined in
  if truthy_arg error then [ConsoleError error] else [ConsoleLog number].

End Random.

Arguments carg : clear implicits.
Arguments rarg : clear implicits.
Arguments revent : clear implicits.

(** Numbers for the examples: [None] is [undefined], which is falsy like 0
    and not greater than anything. *)
Definition sample_truthy (v : option nat) : bool :=
  match v with Some (S _) => true | _ => false end.
Definition sample_greater (a b : option nat) : bool :=
  match a, b with Some x, Some y => y <? x | _, _ => false end.
(** A generator that answers half the limit, without an error. *)
Definition sample_generator (limit : option nat) : option nat * option nat :=
  (None, (λ l, l / 2) <$> limit).

End ErrorFirst.


(* ===================================================================== *)
(** * The dependency map of the server-push middleware *)
(* ===================================================================== *)

(** <<
    files[`${name}`]=fs
      .readFileSync(path.join(__dirname, 'public', `${name}`), {encoding: 'utf8'})
      .split('\n')
      .filter(line=>line.match(RE)!=null)
      .map(line=>line.match(RE)[1])
    >>
    One file's entry, from the content that [readFileSync] returns. RE
    stands for the regular expression literal of the source: the letters
    s r c, spaces (lazy), an equals sign, spaces (lazy), a double quote, a
    group of any characters (greedy), a double quote. It is matched the way
    JavaScript matches it: at the leftmost position where it can match; the
    lazy spaces have to reach the next literal; the greedy group does not
    cross a line terminator and gives back characters until a double quote
    follows. *)
Module ServerPush.
Import Customers.

Definition CR : ascii := ascii_of_nat 13.

(** LineTerminator at the head of [s]: LF, CR, U+2028 or U+2029 (in UTF-8
    the bytes E2 80 A8 and E2 80 A9). *)
Definition starts_with_line_terminator (s : string) : bool :=
  match s with
  | EmptyString => false
  | String c1 rest =>
      Ascii.eqb c1 LF || Ascii.eqb c1 CR ||
      match rest with
      | String c2 (String c3 _) =>
          (nat_of_ascii c1 =? 226) && (nat_of_ascii c2 =? 128)
          && ((nat_of_ascii c3 =? 168) || (nat_of_ascii c3 =? 169))
      | _ => false
      end
  end.

(** The longest text that the group can take at the head of [s]. *)
Fixpoint dot_run (s : string) : string :=
  match s with
  | EmptyString => EmptyString
  | String c rest =>
      if starts_with_line_terminator s then EmptyString
      else String c (dot_run rest)
  end.

(** The group and the closing quote on such a text: the longest prefix that
    is followed by a double quote, that is, the text before the last double
    quote. *)
Fixpoint up_to_last_quote (run : string) : option string :=
  match run with
  | EmptyString => None
  | String c rest =>
      match up_to_last_quote rest with
      | Some g => Some (String c g)
      | None => if Ascii.eqb c dquote then Some EmptyString else None
      end
  end.

Fixpoint skip_spaces (s : string) : string :=
  match s with
  | String c rest => if Ascii.eqb c " " then skip_spaces rest else s
  | EmptyString => s
  end.

Definition expect (c : ascii) (s : string) : option string :=
  match s with
  | String c' rest => if Ascii.eqb c' c then Some rest else None
  | EmptyString => None
  end.

(** The expression matched at the head of [s]; the result is group 1. *)
Definition match_here (s : string) : option string :=
  match expect "s" s with
  | Some s1 =>
      match expect "r" s1 with
      | Some s2 =>
          match expect "c" s2 with
          | Some s3 =>
              match expect "=" (skip_spaces s3) with
              | Some s4 =>
                  match expect dquote (skip_spaces s4) with
                  | Some s5 => up_to_last_quote (dot_run s5)
                  | None => None
                  end
              | None => None
              end
          | None => None
          end
      | None => None
      end
  | None => None
  end.

(** [line.match(RE)]: [None] is null, [Some g] a match whose group 1 is
    [g]. *)
Fixpoint src_match (line : string) : option string :=
  match line with
  | EmptyString => match_here line
  | String _ rest =>
      match match_here line with
      | Some g => Some g
      | None => src_match rest
      end
  end.

(** [.map(line => line.match(RE)[1])]: indexing null throws. *)
Fixpoint map_group (lines : list string) : js_error + list string :=
  match lines with
  | [] => inr []
  | line :: rest =>
      match src_match line with
      | None => inl (TypeError "Cannot read properties of null (reading '1')")
      | Some g =>
          match map_group rest with
          | inl e => inl e
          | inr gs => inr (g :: gs)
          end
      end
  end.

Definition dependencies (content : string) : js_error + list string :=
  map_group
    (List.filter (λ line, match src_match line with Some _ => true | None => false end)
                 (split LF content)).

(** A text that the group can take whole. *)
Definition no_line_terminator (s : string) : Prop := dot_run s = s.

(** The index.html of the article. *)
Definition script_tag (name : string) : string :=
  "  <script src=" +:+ str dquote +:+ name +:+ str dquote +:+ "/></script>".
Definition index_html : string :=
  join (str LF)
    ["<html>"; "<body>"; script_tag "bundle.js"; EmptyString;
     "  <h1>hello to http2 push server!</h1>"; "  <div></div>"; EmptyString;
     "  <img src=" +:+ str dquote +:+ "node-university-animation.gif"
       +:+ str dquote +:+ "/>";
     "  <div></div>"; "  <div></div>"; "</body>"; script_tag "bundle2.js";
     "</html>"].

End ServerPush.


(* ===================================================================== *)
(** * Properties of the fan-in loop *)
(* ===================================================================== *)

Module FanInFacts.
Import FanIn.

Section Facts.
Context {Response : Type}.
Variable h : gmap nat Response → option js_error.
Implicit Types (s : state Response) (r : Response).
Implicit Types (reports : list (nat * Response)).

(** The loop ends, having made the requests [i s], ..., [n] and leaving
    [i] at [n + 1]. *)
Lemma for_loop_spec fuel n s :
  i s ≤ S n → S n - i s < fuel →
  for_loop fuel n s =
    Some (State (S n) (j s) (responses s)
                (requests s ++ seq (i s) (S n - i s)) (console s) (handled s)).
Proof.
  revert s. induction fuel as [|fuel IH]; intros s Hle Hfuel; [lia|].
  simpl. destruct (i s <=? n) eqn:Htest.
  - apply Nat.leb_le in Htest.
    rewrite IH by (simpl; lia). simpl.
    replace (S n - i s) with (S (n - i s)) by lia.
    simpl. by rewrite <- app_assoc.
  - apply Nat.leb_gt in Htest.
    assert (i s = S n) as Hi by lia.
    replace (S n - i s) with 0 by lia. simpl. rewrite app_nil_r.
    destruct s; simpl in *; by subst.
Qed.

Lemma script_spec n :
  script (Response:=Response) n = Some (State (S n) 0 ∅ (seq 1 n) [] []).
Proof.
  unfold script. rewrite for_loop_spec by (simpl; lia). simpl.
  by replace (n - 0) with n by lia.
Qed.

Lemma run_spec n reports :
  run h n reports = Some (deliver h n reports (State (S n) 0 ∅ (seq 1 n) [] [])).
Proof. unfold run. by rewrite script_spec. Qed.

(** One call of the callback. *)
Lemma callback_spec n r s :
  callback h n r s =
    let s' := State (i s) (S (j s)) (<[i s := r]> (responses s))
                    (requests s) (console s ++ [r]) (handled s) in
    if S (j s) =? n then call_handler h s' else (s', None).
Proof. reflexivity. Qed.

Lemma callback_i n r s : i (callback h n r s).1 = i s.
Proof. rewrite callback_spec. cbv zeta. by destruct (S (j s) =? n). Qed.

Lemma callback_j n r s : j (callback h n r s).1 = S (j s).
Proof. rewrite callback_spec. cbv zeta. by destruct (S (j s) =? n). Qed.

Lemma callback_responses n r s :
  responses (callback h n r s).1 = <[i s := r]> (responses s).
Proof. rewrite callback_spec. cbv zeta. by destruct (S (j s) =? n). Qed.

(** The callback writes the slot named by the current [i] and no other. *)
Lemma callback_frame n r s k :
  k ≠ i s → responses (callback h n r s).1 !! k = responses s !! k.
Proof. intros Hk. rewrite callback_responses. by rewrite lookup_insert_ne. Qed.

Lemma callback_handled n r s :
  (S (j s) ≠ n ∧ handled (callback h n r s).1 = handled s
     ∧ (callback h n r s).2 = None)
  ∨ (S (j s) = n
     ∧ handled (callback h n r s).1 = handled s ++ [<[i s := r]> (responses s)]
     ∧ (callback h n r s).2 = h (<[i s := r]> (responses s))).
Proof.
  rewrite callback_spec. cbv zeta. destruct (S (j s) =? n) eqn:Hj.
  - apply Nat.eqb_eq in Hj. right. by simpl.
  - apply Nat.eqb_neq in Hj. left. by simpl.
Qed.

(** A whole delivery: the handler is called when the counter passes from
    below [n] to [n], and at no other moment; what it throws is what the
    delivery ends with. *)
Lemma deliver_spec n reports s :
  if (j s <? n) && (n <=? j s + length reports)
  then ∃ m, handled (deliver h n reports s).1 = handled s ++ [m]
            ∧ (deliver h n reports s).2 = h m
  else handled (deliver h n reports s).1 = handled s
       ∧ (deliver h n reports s).2 = None
       ∧ j (deliver h n reports s).1 = j s + length reports.
Proof.
  revert s. induction reports as [|[k r] rest IH]; intros s.
  - simpl. replace (j s + 0) with (j s) by lia.
    destruct (j s <? n) eqn:H1; simpl; auto.
    apply Nat.ltb_lt in H1.
    destruct (n <=? j s) eqn:H2; auto. apply Nat.leb_le in H2. lia.
  - simpl.
    specialize (IH (callback h n r s).1).
    rewrite callback_j in IH.
    destruct (callback_handled n r s) as [(Hne & Hh & He)|(Heq & Hh & He)];
      destruct (callback h n r s) as [s1 e1] eqn:Hcb; simpl in *; subst e1.
    + rewrite Hh in IH.
      replace (j s + S (length rest)) with (S (j s) + length rest) by lia.
      replace (j s <? n) with (S (j s) <? n); [exact IH|].
      destruct (S (j s) <? n) eqn:H1, (j s <? n) eqn:H2; auto.
      * apply Nat.ltb_lt in H1. apply Nat.ltb_ge in H2. lia.
      * apply Nat.ltb_ge in H1. apply Nat.ltb_lt in H2. lia.
    + assert ((j s <? n) && (n <=? j s + S (length rest)) = true) as ->.
      { apply andb_true_iff. split; [apply Nat.ltb_lt|apply Nat.leb_le]; lia. }
      assert ((S (j s) <? n) = false) as Hlt by (apply Nat.ltb_ge; lia).
      rewrite Hlt in IH. simpl in IH. destruct IH as (IH1 & IH2 & _).
      destruct (h (<[i s:=r]> (responses s))) as [e|] eqn:Hthrow.
      * simpl. eauto.
      * rewrite IH1, IH2, Hh. eauto.
Qed.

(** Deliveries compose. *)
Lemma deliver_app n reports1 reports2 s :
  deliver h n (reports1 ++ reports2) s =
    match deliver h n reports1 s with
    | (s', None) => deliver h n reports2 s'
    | (s', Some e) => (s', Some e)
    end.
Proof.
  revert s. induction reports1 as [|[k r] rest IH]; intros s; [done|].
  simpl. destruct (callback h n r s) as [s1 [e|]]; [done|apply IH].
Qed.

(** Below the threshold every report lands in the one slot [i s]. *)
Lemma deliver_below n reports s :
  j s + length reports < n →
  deliver h n reports s =
    (State (i s) (j s + length reports)
           (foldl (λ m kr, <[i s := kr.2]> m) (responses s) reports)
           (requests s) (console s ++ reports.*2) (handled s),
     None).
Proof.
  revert s. induction reports as [|[k r] rest IH]; intros s Hlt; simpl in *.
  - rewrite app_nil_r. replace (j s + 0) with (j s) by lia. by destruct s.
  - rewrite callback_spec. cbv zeta.
    destruct (S (j s) =? n) eqn:Hj; [apply Nat.eqb_eq in Hj; lia|].
    rewrite IH by (simpl; lia). simpl.
    replace (S (j s + length rest)) with (j s + S (length rest)) by lia.
    by rewrite <- app_assoc.
Qed.

Lemma insert_after_same_slot (slot : nat) r reports (m : gmap nat Response) :
  <[slot := r]> (foldl (λ m kr, <[slot := kr.2]> m) m reports)
  = <[slot := r]> m.
Proof.
  revert m. induction reports as [|[k r'] rest IH]; intros m; [done|].
  simpl. rewrite IH. apply insert_insert_eq.
Qed.

(** With N ≥ 1 tasks and N reports, the handler receives one entry: the
    response that came last, under the key N + 1. *)
Lemma handler_receives_loop_exit_slot n front k r :
  length front + 1 = n →
  invocations (run h n (front ++ [(k, r)])) = [{[S n := r]}].
Proof.
  intros Hn. rewrite run_spec, deliver_app, deliver_below by (simpl; lia).
  simpl. rewrite callback_spec. cbv zeta. simpl j.
  assert ((S (length front) =? n) = true) as -> by (apply Nat.eqb_eq; lia).
  unfold call_handler, invocations. simpl.
  rewrite insert_after_same_slot.
  by destruct (h _).
Qed.

(** The run always yields a final state. *)
Lemma run_is_Some n reports : is_Some (run h n reports).
Proof. rewrite run_spec. eauto. Qed.

Lemma run_invocations n reports :
  length (invocations (run h n reports)) =
    if (0 <? n) && (n <=? length reports) then 1 else 0.
Proof.
  rewrite run_spec.
  pose proof (deliver_spec n reports (State (S n) 0 ∅ (seq 1 n) [] [])) as H.
  simpl in *. destruct (deliver h n reports _) as [s' e]. simpl in *.
  destruct ((0 <? n) && (n <=? length reports)).
  - destruct H as (m & -> & _). done.
  - destruct H as (-> & _). done.
Qed.

End Facts.

(** ** Exactly-once invocation *)

(** C1, counterexample: with N = 0 no request is made, no callback ever
    runs, and the handler is invoked zero times, not once. *)
Lemma zero_tasks_handler_not_invoked :
  is_Some (run (Response:=nat) returns 0 [])
  ∧ length (invocations (run (Response:=nat) returns 0 [])) ≠ 1.
Proof. split; [by eexists|]. vm_compute. lia. Qed.

(** C1, amended: for every N ≥ 1 and every order in which the tasks
    1, ..., N each report once, the run ends and the handler has been
    invoked exactly once. *)
Theorem handler_invoked_exactly_once {Response}
    (h : gmap nat Response → option js_error) (n : nat)
    (reports : list (nat * Response)) :
  1 ≤ n → reports.*1 ≡ₚ seq 1 n →
  is_Some (run h n reports) ∧ length (invocations (run h n reports)) = 1.
Proof.
  intros Hn Hperm. split; [apply run_is_Some|].
  apply Permutation_length in Hperm.
  rewrite length_fmap, length_seq in Hperm.
  rewrite run_invocations.
  assert ((0 <? n) && (n <=? length reports) = true) as ->; [|done].
  apply andb_true_iff. split; [apply Nat.ltb_lt|apply Nat.leb_le]; lia.
Qed.

Lemma handler_invoked_exactly_once_witness :
  is_Some (run returns 3 c_a_b) ∧ length (invocations (run returns 3 c_a_b)) = 1.
Proof.
  apply (handler_invoked_exactly_once returns 3 c_a_b); [lia|].
  apply (perm_trans (l':=[1; 3; 2])); [apply perm_swap|apply perm_skip, perm_swap].
Defined.

(** ** Duplicate reports *)

(** C2, counterexample: with N = 2, task 1 reports twice and task 2 never.
    The second report is counted (the counter reaches 2), it replaces what
    the first one recorded, and it makes the handler fire. *)
Lemma duplicate_report_is_counted :
  counter (run returns 2 [(1, 5); (1, 6)]) ≠ counter (run returns 2 [(1, 5)])
  ∧ result_set (run returns 2 [(1, 5); (1, 6)])
    ≠ result_set (run returns 2 [(1, 5)])
  ∧ invocations (run returns 2 [(1, 5)]) = []
  ∧ length (invocations (run returns 2 [(1, 5); (1, 6)])) = 1.
Proof.
  split; [vm_compute; lia|]. split; [|by vm_compute].
  intros H. apply (f_equal (λ m : gmap nat nat, m !! 3)) in H.
  vm_compute in H. discriminate.
Qed.

(** C2, amended: the loop has no notion of which task reports. Every call
    of the callback, a repeated one included, adds one to the counter; and
    for every sequence of reports the handler is invoked at most once. *)
Theorem every_report_counted_handler_at_most_once {Response}
    (h : gmap nat Response → option js_error) (n : nat)
    (reports : list (nat * Response)) :
  is_Some (run h n reports)
  ∧ length (invocations (run h n reports)) ≤ 1
  ∧ ∀ s r, j (callback h n r s).1 = S (j s).
Proof.
  split; [apply run_is_Some|]. split; [|intros; apply callback_j].
  rewrite run_invocations. destruct (_ && _); lia.
Qed.

(** ** The result set *)

(** C3, the code at three and at ten tasks: the handler receives one entry,
    under the key N + 1 that [i] has after the loop, holding the response
    that arrived last; two completion orders of the same ten tasks give
    two different mappings. *)
Theorem result_set_has_one_entry_under_loop_exit_key :
  invocations (run returns 3 c_a_b) = [{[4 := 2]}]
  ∧ invocations (run returns N ascending) = [{[11 := 110]}]
  ∧ invocations (run returns N two_last) = [{[11 := 102]}].
Proof. repeat split; by vm_compute. Qed.

(** ** No task *)

(** C4, counterexample: with N = 0 the handler is not invoked with an empty
    result set; it is not invoked. *)
Lemma zero_tasks_no_empty_result_set :
  is_Some (run (Response:=nat) returns 0 [])
  ∧ invocations (run (Response:=nat) returns 0 []) ≠ [∅].
Proof. split; [by eexists|]. by vm_compute. Qed.

(** C4, amended: with N = 0 the script ends without invoking the handler,
    and no report that might still arrive invokes it. *)
Theorem zero_tasks_handler_never_invoked {Response}
    (h : gmap nat Response → option js_error)
    (reports : list (nat * Response)) :
  is_Some (run h 0 reports) ∧ invocations (run h 0 reports) = [].
Proof.
  split; [apply run_is_Some|].
  apply length_zero_iff_nil. by rewrite run_invocations.
Qed.

(** ** Failures *)

(** C5, counterexample: three tasks, b fails with "timeout" first. The
    failure does not invoke the handler; when a and c have completed the
    handler is invoked with the responses object. *)
Lemma failure_is_not_fail_fast :
  length (invocations (run returns 3 b_fails)) ≠ 1
  ∧ invocations (run returns 3 b_fails_then_a_c) = [{[4 := Success 3]}].
Proof. split; [vm_compute; lia|by vm_compute]. Qed.

(** C5, amended: the callback has no error branch and the loop no
    fail-fast mode. A failure that a task hands to its callback among the
    first N reports is a response like any other: it is counted and it is
    stored in the responses object. If fewer than N reports have arrived by
    then, the handler is not invoked and nothing is thrown. If the failure
    is the N-th report, the handler is invoked, once, and what it is given
    is the responses object holding the failure, not the failure alone;
    what the handler throws then is what the run ends with. Whatever
    completes or fails afterwards, the handler is never invoked more than
    once. *)
Theorem failure_is_counted_stored_and_never_fails_fast
    (h : gmap nat outcome → option js_error) (n : nat)
    (front : list (nat * outcome)) (k : nat) (reason : string) :
  length front < n →
  is_Some (run h n (front ++ [(k, Failure reason)]))
  ∧ counter (run h n (front ++ [(k, Failure reason)])) = S (length front)
  ∧ (∃ slot, result_set (run h n (front ++ [(k, Failure reason)])) !! slot
             = Some (Failure reason))
  ∧ (S (length front) < n →
     invocations (run h n (front ++ [(k, Failure reason)])) = []
     ∧ uncaught (run h n (front ++ [(k, Failure reason)])) = None)
  ∧ (S (length front) = n →
     invocations (run h n (front ++ [(k, Failure reason)]))
       = [result_set (run h n (front ++ [(k, Failure reason)]))]
     ∧ uncaught (run h n (front ++ [(k, Failure reason)]))
       = h (result_set (run h n (front ++ [(k, Failure reason)]))))
  ∧ (∀ later,
       length (invocations (run h n (front ++ [(k, Failure reason)] ++ later)))
       ≤ 1).
Proof.
  intros Hlt. split; [apply run_is_Some|].
  assert (∀ later,
    length (invocations (run h n (front ++ [(k, Failure reason)] ++ later)))
    ≤ 1) as Honce.
  { intros later. rewrite run_invocations. destruct (_ && _); lia. }
  rewrite run_spec, deliver_app, deliver_below by (simpl; lia).
  simpl. rewrite callback_spec. cbv zeta. simpl j. simpl i. simpl responses.
  destruct (S (length front) =? n) eqn:Hn.
  - apply Nat.eqb_eq in Hn. unfold call_handler. simpl.
    destruct (h _) as [e|] eqn:Hh; simpl;
      (split; [done|]); (split; [exists (S n); apply lookup_insert_eq|]);
      (split; [lia|]); (split; [|exact Honce]); intros _;
      rewrite ?Hh; done.
  - apply Nat.eqb_neq in Hn. simpl.
    split; [done|]. split; [exists (S n); apply lookup_insert_eq|].
    split; [done|]. split; [lia|exact Honce].
Qed.

Lemma failure_is_counted_stored_and_never_fails_fast_witness :
  counter (run returns 3 ([] ++ b_fails)) = 1
  ∧ (∃ slot, result_set (run returns 3 ([] ++ b_fails)) !! slot
             = Some (Failure "timeout"))
  ∧ invocations (run returns 3 ([] ++ b_fails)) = []
  ∧ counter (run returns 2 ([(1, Success 1)] ++ b_fails)) = 2
  ∧ invocations (run returns 2 ([(1, Success 1)] ++ b_fails))
    = [result_set (run returns 2 ([(1, Success 1)] ++ b_fails))]
  ∧ (∃ slot, result_set (run returns 2 ([(1, Success 1)] ++ b_fails)) !! slot
             = Some (Failure "timeout")).
Proof.
  destruct (failure_is_counted_stored_and_never_fails_fast
              returns 3 [] 2 "timeout") as (_ & Hc & Hs & Hbelow & _);
    [simpl; lia|].
  destruct (failure_is_counted_stored_and_never_fails_fast
              returns 2 [(1, Success 1)] 2 "timeout")
    as (_ & Hc' & Hs' & _ & Hat & _); [simpl; lia|].
  destruct (Hbelow ltac:(simpl; lia)) as [Hinv _].
  destruct (Hat eq_refl) as [Hinv' _].
  exact (conj Hc (conj Hs (conj Hinv (conj Hc' (conj Hinv' Hs'))))).
Defined.

(** ** Result slots *)

(** C7, the code at ten tasks: the completion of task 3 leaves slot 3 empty
    and writes slot 11; the completion of task 7 then leaves slot 7 empty
    and replaces what task 3 recorded. *)
Theorem completion_writes_loop_exit_slot :
  result_set (run returns N [(3, 103)]) !! 3 = None
  ∧ result_set (run returns N [(3, 103)]) !! 11 = Some 103
  ∧ result_set (run returns N [(3, 103); (7, 107)]) !! 7 = None
  ∧ result_set (run returns N [(3, 103); (7, 107)]) !! 11 = Some 107.
Proof. repeat split; by vm_compute. Qed.

(** ** A throwing handler *)

(** C8: when the handler has been invoked, with [m], and throws [e] on it,
    the run ends with [e] uncaught: the callback neither catches it nor
    replaces it. *)
Theorem handler_exception_propagates {Response}
    (h : gmap nat Response → option js_error) (n : nat)
    (reports : list (nat * Response)) (m : gmap nat Response) (e : js_error) :
  invocations (run h n reports) = [m] → h m = Some e →
  uncaught (run h n reports) = Some e.
Proof.
  rewrite run_spec.
  pose proof (deliver_spec h n reports (State (S n) 0 ∅ (seq 1 n) [] [])) as H.
  simpl in *. destruct (deliver h n reports _) as [s' e']. simpl in *.
  destruct ((0 <? n) && (n <=? length reports)).
  - destruct H as (m' & -> & ->). intros [= ->]. done.
  - destruct H as (-> & _). discriminate.
Qed.

Lemma handler_exception_propagates_witness :
  uncaught (run (throws (Error "boom")) 3 c_a_b) = Some (Error "boom").
Proof.
  apply (handler_exception_propagates (throws (Error "boom")) 3 c_a_b {[4 := 2]});
    reflexivity.
Defined.

End FanInFacts.


(* ===================================================================== *)
(** * Properties of getCustomers *)
(* ===================================================================== *)

Module CustomersFacts.
Import Customers.

(** ** Traces of sequenced effects *)

Lemma trace_bind_ret {A B} (a : A) (k : A → M B) :
  trace (bind (ret a) k) = trace (k a).
Proof. reflexivity. Qed.

Lemma trace_bind_emit {B} (ev : event) (k : unit → M B) :
  trace (bind (emit ev) k) = ev :: trace (k tt).
Proof. reflexivity. Qed.

Lemma trace_invoke callback args : trace (invoke callback args) = [Callback args].
Proof. unfold invoke. rewrite trace_bind_emit. by destruct (callback args). Qed.

(** ** Splitting, field by field *)

Lemma split_unfold sep s :
  split sep s =
    before sep s :: match after sep s with
                    | Some rest => split sep rest
                    | None => []
                    end.
Proof.
  induction s as [|c rest IH]; [done|].
  simpl. destruct (Ascii.eqb c sep); [done|].
  by rewrite IH.
Qed.

Lemma split_lookup_field k line : split comma line !! k = spec_field k line.
Proof.
  revert line. induction k as [|k IH]; intros line; rewrite split_unfold.
  - done.
  - simpl. destruct (after comma line) as [rest|]; [apply IH|done].
Qed.

Lemma customer_of_line_fields line :
  customer_of_line line =
    {| id := spec_field 0 line; first_name := spec_field 1 line |}.
Proof.
  unfold customer_of_line. cbv zeta. by rewrite !split_lookup_field.
Qed.

Lemma customers_refine s :
  List.map customer_of_line (split LF s) = spec_customers s.
Proof.
  unfold spec_customers. apply List.map_ext. intros line.
  apply customer_of_line_fields.
Qed.

(** An array always has a serialisation. *)
Lemma spec_json_is_Some s : is_Some (spec_json s).
Proof. unfold spec_json, JSON_stringify. simpl. eauto. Qed.

Lemma stringify_customers_spec s json :
  spec_json s = Some json →
  stringify_customers (List.map customer_of_line (split LF s)) = ret json.
Proof.
  intros H. unfold stringify_customers. rewrite customers_refine.
  unfold spec_json in H. by rewrite H.
Qed.

(** The two versions differ in how they test [error], not in what they do. *)
Lemma getCustomers_okay_eq fs callback :
  getCustomers_okay fs callback = getCustomers fs callback.
Proof.
  unfold getCustomers_okay, getCustomers, fs_stat.
  destruct (stat fs inputFile) as [e|st]; [done|].
  simpl. destruct (isFile st); [|done].
  unfold fs_readFile, okay. destruct (readFile fs inputFile); done.
Qed.

(** ** The failure paths *)

(** C6, the code when the path is not a regular file: both versions write
    one line to the error console and end; the callback is not called, so
    its caller never learns of the failure. *)
Theorem not_a_file_is_only_logged (fs : FileSystem)
    (callback : list arg → option js_error) (st : Stats) :
  stat fs inputFile = inr st → isFile st = false →
  getCustomers fs callback
    = Run [ConsoleError "The input CSV file is not found"] (inr tt)
  ∧ getCustomers_okay fs callback
    = Run [ConsoleError "The input CSV file is not found"] (inr tt)
  ∧ callback_calls (trace (getCustomers fs callback)) = []
  ∧ callback_calls (trace (getCustomers_okay fs callback)) = [].
Proof.
  intros Hstat Hfile. rewrite (getCustomers_okay_eq fs callback).
  assert (getCustomers fs callback
          = Run [ConsoleError "The input CSV file is not found"] (inr tt)) as ->.
  { unfold getCustomers, fs_stat. rewrite Hstat. simpl. by rewrite Hfile. }
  done.
Qed.

Lemma not_a_file_is_only_logged_witness :
  callback_calls (trace (getCustomers fs_directory quiet)) = [].
Proof.
  apply (not_a_file_is_only_logged fs_directory quiet {| isFile := false |});
    reflexivity.
Defined.

(** C10: when [fs.stat] reports an error, [stats] is undefined, the call
    [stats.isFile()] throws a TypeError out of the stat callback, and the
    user's callback is not called. *)
Theorem stat_error_throws (fs : FileSystem)
    (callback : list arg → option js_error) (e : js_error) :
  stat fs inputFile = inl e →
  (∃ msg, outcome (getCustomers fs callback) = inl (TypeError msg))
  ∧ callback_calls (trace (getCustomers fs callback)) = []
  ∧ (∃ msg, outcome (getCustomers_okay fs callback) = inl (TypeError msg))
  ∧ callback_calls (trace (getCustomers_okay fs callback)) = [].
Proof.
  intros Hstat. rewrite (getCustomers_okay_eq fs callback).
  unfold getCustomers, fs_stat. rewrite Hstat. simpl.
  repeat split; eauto.
Qed.

Lemma stat_error_throws_witness :
  (∃ msg, outcome (getCustomers fs_missing quiet) = inl (TypeError msg))
  ∧ callback_calls (trace (getCustomers fs_missing quiet)) = [].
Proof.
  destruct (stat_error_throws fs_missing quiet
              (Error "ENOENT: no such file or directory") eq_refl)
    as (H1 & H2 & _).
  exact (conj H1 H2).
Defined.

(** ** The success path *)

(** C9: when the input is a regular file, the read yields [s] and the write
    of the serialisation succeeds, the callback is called exactly once, with
    null and the JSON text of the array described by [spec_customers]. *)
Theorem getCustomers_success (fs : FileSystem)
    (callback : list arg → option js_error) (st : Stats) (s json : string) :
  stat fs inputFile = inr st → isFile st = true →
  readFile fs inputFile = inr s →
  spec_json s = Some json →
  writeFile fs "./customers.json" json = None →
  callback_calls (trace (getCustomers fs callback)) = [[Null; Str json]]
  ∧ callback_calls (trace (getCustomers_okay fs callback)) = [[Null; Str json]].
Proof.
  intros Hstat Hfile Hread Hjson Hwrite. rewrite (getCustomers_okay_eq fs callback).
  assert (callback_calls (trace (getCustomers fs callback))
          = [[Null; Str json]]) as ->; [|done].
  unfold getCustomers, fs_stat. rewrite Hstat.
  unfold stats_isFile. rewrite Hfile, trace_bind_ret.
  unfold fs_readFile. rewrite Hread.
  unfold string_split. rewrite trace_bind_ret. cbv zeta.
  rewrite trace_bind_emit, (stringify_customers_spec s json Hjson).
  rewrite trace_bind_ret.
  unfold fs_writeFile. rewrite trace_bind_emit, Hwrite, trace_invoke.
  reflexivity.
Qed.

Lemma getCustomers_success_witness :
  callback_calls (trace (getCustomers fs_ok quiet)) = [[Null; Str sample_json]]
  ∧ callback_calls (trace (getCustomers_okay fs_ok quiet))
    = [[Null; Str sample_json]].
Proof.
  apply (getCustomers_success fs_ok quiet {| isFile := true |} sample_csv);
    reflexivity.
Defined.

End CustomersFacts.


(* ===================================================================== *)
(** * More on the fan-in loop: dispatch, the log, the responses object *)
(* ===================================================================== *)

Module FanInMore.
Import FanIn FanInFacts.

Section More.
Context {Response : Type}.
Variable h : gmap nat Response → option js_error.
Implicit Types (s : state Response) (r : Response).
Implicit Types (reports : list (nat * Response)).

(** No delivery touches a slot other than the one [i] names. *)
Lemma deliver_frame n reports s k :
  k ≠ i s → responses (deliver h n reports s).1 !! k = responses s !! k.
Proof.
  revert s. induction reports as [|[k' r] rest IH]; intros s Hk; [done|].
  simpl. pose proof (callback_i h n r s) as Hi.
  pose proof (callback_frame h n r s k Hk) as Hf.
  destruct (callback h n r s) as [s1 [e|]]; simpl in *; [done|].
  rewrite IH by congruence. done.
Qed.

(** With a handler that returns, every report is delivered. *)
Lemma deliver_returns n reports s :
  (∀ m, h m = None) →
  ∃ hd, deliver h n reports s =
    (State (i s) (j s + length reports)
           (foldl (λ m kr, <[i s := kr.2]> m) (responses s) reports)
           (requests s) (console s ++ reports.*2) hd,
     None).
Proof.
  intros Hh. revert s. induction reports as [|[k r] rest IH]; intros s.
  - exists (handled s). simpl. rewrite app_nil_r.
    replace (j s + 0) with (j s) by lia. by destruct s.
  - simpl. rewrite callback_spec. cbv zeta.
    destruct (S (j s) =? n); unfold call_handler; simpl; rewrite ?Hh.
    + edestruct IH as [hd ->]. exists hd. simpl.
      replace (S (j s + length rest)) with (j s + S (length rest)) by lia.
      by rewrite <- app_assoc.
    + edestruct IH as [hd ->]. exists hd. simpl.
      replace (S (j s + length rest)) with (j s + S (length rest)) by lia.
      by rewrite <- app_assoc.
Qed.

(** X1: the script ends for every N, before any callback has run; by then
    it has made exactly the requests 1, ..., N, in this order, and has left
    [i] at N + 1, with the counter at 0, nothing recorded and the handler
    not invoked. *)
Theorem loop_dispatches_all_requests (n : nat) :
  ∃ s, script (Response:=Response) n = Some s
       ∧ requests s = seq 1 n ∧ i s = S n ∧ j s = 0
       ∧ responses s = ∅ ∧ console s = [] ∧ handled s = [].
Proof. eexists. split; [apply script_spec|]. by simpl. Qed.

(** X2: for N = m + 1 tasks, the handler's invocations in closed form: none
    while fewer than N reports have arrived; otherwise exactly one, made by
    the N-th report, and what it is given is the single entry N + 1 holding
    that report's response. Reports after the N-th add no invocation. *)
Theorem handler_invocations_closed_form (m : nat) reports :
  invocations (run h (S m) reports) =
    match reports !! m with
    | Some (_, r) => [{[S (S m) := r]}]
    | None => []
    end.
Proof.
  destruct (reports !! m) as [[k r]|] eqn:Hm.
  - rewrite <- (take_drop_middle reports m (k, r) Hm).
    apply lookup_lt_Some in Hm.
    rewrite run_spec, deliver_app, deliver_below
      by (simpl; rewrite length_take; lia).
    simpl. rewrite callback_spec. cbv zeta. simpl j.
    rewrite length_take, Nat.min_l by lia.
    rewrite Nat.eqb_refl. unfold call_handler. simpl.
    rewrite insert_after_same_slot, insert_empty.
    destruct (h _) as [e|]; [done|].
    match goal with |- context [deliver h ?n ?l ?s] =>
      pose proof (deliver_spec h n l s) as Hd end.
    simpl in Hd.
    assert ((S m <? S m) = false) as Hlt by (apply Nat.ltb_ge; lia).
    rewrite Hlt in Hd. simpl in Hd. destruct Hd as (Hd & _).
    unfold invocations.
    destruct (deliver h _ _ _) as [s' e']. simpl in *. by rewrite Hd.
  - apply lookup_ge_None in Hm.
    apply length_zero_iff_nil. rewrite run_invocations.
    assert ((S m <=? length reports) = false) as -> by (apply Nat.leb_gt; lia).
    by rewrite andb_false_r.
Qed.

(** X3: when the handler returns, every report is delivered: the run ends
    without an exception, [console.log] has printed the responses in the
    order of their arrival (not in the order of the requests), and the
    counter equals the number of reports. *)
Theorem responses_logged_in_arrival_order (n : nat) reports :
  (∀ m, h m = None) →
  ∃ s, run h n reports = Some (s, None)
       ∧ console s = reports.*2
       ∧ j s = length reports
       ∧ requests s = seq 1 n.
Proof.
  intros Hh. rewrite run_spec.
  destruct (deliver_returns n reports (State (S n) 0 ∅ (seq 1 n) [] []) Hh)
    as [hd ->].
  eexists. split; [done|]. by simpl.
Qed.

(** X4: no run ever writes a slot other than N + 1: whatever reports
    arrive, in whatever order, the slots 1, ..., N of the tasks stay
    empty. *)
Theorem only_the_loop_exit_slot_is_written (n : nat) reports (k : nat) :
  k ≠ S n → result_set (run h n reports) !! k = None.
Proof.
  intros Hk. rewrite run_spec. unfold result_set.
  pose proof (deliver_frame n reports (State (S n) 0 ∅ (seq 1 n) [] []) k Hk)
    as Hf.
  destruct (deliver h n reports _) as [s' e]. simpl in *. by rewrite Hf.
Qed.

(** X5: when the handler returns, the responses object ends as the single
    entry N + 1 holding the response that arrived last, for every N and
    every non-empty sequence of reports: also the reports that arrive after
    the handler has run rewrite the object the handler was given. *)
Theorem responses_end_as_last_response (n : nat) front (k : nat) r :
  (∀ m, h m = None) →
  result_set (run h n (front ++ [(k, r)])) = {[S n := r]}.
Proof.
  intros Hh. rewrite run_spec.
  destruct (deliver_returns n (front ++ [(k, r)])
              (State (S n) 0 ∅ (seq 1 n) [] []) Hh) as [hd ->].
  simpl. rewrite foldl_app. simpl.
  rewrite insert_after_same_slot. apply insert_empty.
Qed.

End More.

Lemma responses_logged_in_arrival_order_witness :
  ∃ s, run returns 3 c_a_b = Some (s, None)
       ∧ console s = [3; 1; 2]
       ∧ j s = 3
       ∧ requests s = [1; 2; 3].
Proof.
  apply (responses_logged_in_arrival_order returns 3 c_a_b). reflexivity.
Defined.

Lemma only_the_loop_exit_slot_is_written_witness :
  result_set (run returns N ascending) !! 7 = None.
Proof.
  apply (only_the_loop_exit_slot_is_written returns N ascending 7).
  unfold N. lia.
Defined.

Lemma responses_end_as_last_response_witness :
  result_set (run returns 2 ([(1, 5); (2, 6)] ++ [(1, 7)])) = {[3 := 7]}.
Proof.
  apply (responses_end_as_last_response returns 2 [(1, 5); (2, 6)] 1 7).
  reflexivity.
Defined.

End FanInMore.


(* ===================================================================== *)
(** * Properties of the earlier listings *)
(* ===================================================================== *)

Module FanInListingsFacts.
Import FanInListings.

Section Facts.
Context {Response : Type}.
Variable h : gmap nat Response → option js_error.
Implicit Types (s : lstate Response) (r : Response).
Implicit Types (reports : list (nat * Response)).

Lemma listing_loop_spec fuel n s :
  i s ≤ S n → S n - i s < fuel →
  for_loop fuel n s =
    Some (LState (S n) (responses s)
                 (requests s ++ seq (i s) (S n - i s)) (console s) (handled s)).
Proof.
  revert s. induction fuel as [|fuel IH]; intros s Hle Hfuel; [lia|].
  simpl. destruct (i s <=? n) eqn:Htest.
  - apply Nat.leb_le in Htest.
    rewrite IH by (simpl; lia). simpl.
    replace (S n - i s) with (S (n - i s)) by lia.
    simpl. by rewrite <- app_assoc.
  - apply Nat.leb_gt in Htest.
    assert (i s = S n) as Hi by lia.
    replace (S n - i s) with 0 by lia. simpl. rewrite app_nil_r.
    destruct s; simpl in *; by subst.
Qed.

Lemma loop_exit n :
  for_loop (Response:=Response) (S n) n (set_i 1 initial)
  = Some (LState (S n) ∅ (seq 1 n) [] []).
Proof.
  rewrite listing_loop_spec by (simpl; lia). simpl.
  by replace (n - 0) with n by lia.
Qed.

(** The storing callback never calls the continuation. *)
Lemma deliver_store reports s :
  deliver callback_store reports s =
    (LState (i s)
            (foldl (λ m kr, <[i s := kr.2]> m) (responses s) reports)
            (requests s)
            (console s ++ (LogResponse <$> reports.*2))
            (handled s),
     None).
Proof.
  revert s. induction reports as [|[k r] rest IH]; intros s.
  - simpl. rewrite app_nil_r. by destruct s.
  - simpl. rewrite IH. simpl. by rewrite <- app_assoc.
Qed.

(** The continuing callback calls it every time, with the one slot. *)
Lemma deliver_continue slot reports s :
  (∀ m, h m = None) → i s = slot → dom (responses s) ⊆ {[slot]} →
  ∃ s', deliver (callback_continue h) reports s = (s', None)
        ∧ handled s' = handled s ++ ((λ kr, {[slot := kr.2]}) <$> reports).
Proof.
  intros Hh. revert s. induction reports as [|[k r] rest IH]; intros s Hi Hdom.
  - exists s. simpl. by rewrite app_nil_r.
  - assert (<[i s := r]> (responses s) = {[slot := r]}) as Hone.
    { subst slot. apply map_eq. intros k'.
      destruct (decide (k' = i s)) as [->|Hne].
      - by rewrite lookup_insert_eq, lookup_singleton_eq.
      - rewrite lookup_insert_ne, lookup_singleton_ne by done.
        apply not_elem_of_dom. set_solver. }
    destruct (IH (LState (i s) (<[i s := r]> (responses s)) (requests s)
                         (console s ++ [LogResponse r])
                         (handled s ++ [<[i s := r]> (responses s)])))
      as (s' & Hd & Hs'); [done| |].
    { simpl. rewrite Hone, dom_singleton_L. done. }
    exists s'. split.
    + simpl. unfold callback_continue, call_handler. simpl. rewrite Hh.
      exact Hd.
    + rewrite Hs'. simpl. rewrite Hone, <- app_assoc. done.
Qed.

(** X6: with the continuation placed after the loop, it is invoked exactly
    once, in the first turn, with the empty object: no response has arrived
    by then, whatever the number of tasks and whatever arrives later. *)
Theorem continuation_after_loop_sees_no_response (n : nat) reports :
  ∃ s e, run_after_loop h n reports = Some (s, e)
         ∧ handled s = [∅]
         ∧ e = h ∅
         ∧ console s !! 0 = Some (LogResponses ∅).
Proof.
  unfold run_after_loop. rewrite loop_exit.
  unfold call_handler, console_log. simpl.
  destruct (h ∅) as [e|].
  - eexists _, _. split; [done|]. by simpl.
  - rewrite deliver_store. eexists _, _. split; [done|]. by simpl.
Qed.

(** X7: with the continuation placed in the callback and returning, it is
    invoked once for every report, N times for N reports and not once; the
    k-th invocation is given the single entry N + 1 holding the k-th
    response. *)
Theorem continuation_in_callback_runs_per_report (n : nat) reports :
  (∀ m, h m = None) →
  ∃ s, run_in_callback h n reports = Some (s, None)
       ∧ handled s = (λ kr, {[S n := kr.2]}) <$> reports
       ∧ length (handled s) = length reports.
Proof.
  intros Hh. unfold run_in_callback. rewrite loop_exit.
  destruct (deliver_continue (S n) reports (LState (S n) ∅ (seq 1 n) [] []) Hh)
    as (s' & -> & Hs'); [done|simpl; set_solver|].
  exists s'. split; [done|]. simpl in Hs'. rewrite Hs'.
  split; [done|]. by rewrite length_fmap.
Qed.

End Facts.

Lemma continuation_in_callback_runs_per_report_witness :
  ∃ s, run_in_callback FanIn.returns 3 FanIn.c_a_b = Some (s, None)
       ∧ handled s = [{[4 := 3]}; {[4 := 1]}; {[4 := 2]}]
       ∧ length (handled s) = 3.
Proof.
  apply (continuation_in_callback_runs_per_report FanIn.returns 3 FanIn.c_a_b).
  reflexivity.
Defined.

End FanInListingsFacts.


(* ===================================================================== *)
(** * More on getCustomers: the error paths, the trace, the lines *)
(* ===================================================================== *)

Module CustomersMore.
Import Customers CustomersFacts CustomersText.

Lemma outcome_bind_ret {A B} (a : A) (k : A → M B) :
  outcome (bind (ret a) k) = outcome (k a).
Proof. reflexivity. Qed.

Lemma outcome_bind_emit {B} (ev : event) (k : unit → M B) :
  outcome (bind (emit ev) k) = outcome (k tt).
Proof. reflexivity. Qed.

Lemma outcome_invoke callback args :
  outcome (invoke callback args) =
    match callback args with Some e => inl e | None => inr tt end.
Proof. unfold invoke. rewrite outcome_bind_emit. by destruct (callback args). Qed.

(** What [getCustomers] does, path by path. *)
Lemma getCustomers_paths fs callback :
  match stat fs inputFile with
  | inl _ =>
      trace (getCustomers fs callback) = []
      ∧ ∃ msg, outcome (getCustomers fs callback) = inl (TypeError msg)
  | inr st =>
      if isFile st then
        match readFile fs inputFile with
        | inl e =>
            trace (getCustomers fs callback) = [Callback [Err e]]
            ∧ outcome (getCustomers fs callback) = outcome (invoke callback [Err e])
        | inr s =>
            ∃ json, spec_json s = Some json
              ∧ let args := match writeFile fs "./customers.json" json with
                            | Some e => [Err e]
                            | None => [Null; Str json]
                            end in
                trace (getCustomers fs callback) =
                  [ConsoleLog (customers_of_csv s);
                   WriteFile "./customers.json" json;
                   Callback args]
                ∧ outcome (getCustomers fs callback)
                  = outcome (invoke callback args)
        end
      else
        trace (getCustomers fs callback)
          = [ConsoleError "The input CSV file is not found"]
        ∧ outcome (getCustomers fs callback) = inr tt
  end.
Proof.
  unfold getCustomers, fs_stat.
  destruct (stat fs inputFile) as [e|st]; [simpl; eauto|].
  unfold stats_isFile. rewrite trace_bind_ret, outcome_bind_ret.
  destruct (isFile st); [|done].
  unfold fs_readFile. destruct (readFile fs inputFile) as [e|s].
  { split; [apply trace_invoke|done]. }
  destruct (spec_json_is_Some s) as [json Hjson]. exists json.
  split; [done|]. cbv zeta.
  unfold string_split. rewrite trace_bind_ret, outcome_bind_ret.
  rewrite trace_bind_emit, outcome_bind_emit.
  rewrite (stringify_customers_spec s json Hjson).
  rewrite trace_bind_ret, outcome_bind_ret.
  unfold fs_writeFile. rewrite trace_bind_emit, outcome_bind_emit.
  destruct (writeFile fs "./customers.json" json);
    by rewrite trace_invoke.
Qed.

(** ** Splitting *)

Lemma split_length sep s : length (split sep s) = S (count_char sep s).
Proof.
  induction s as [|c rest IH]; [done|].
  simpl. destruct (Ascii.eqb c sep); simpl; [by rewrite IH|].
  destruct (split sep rest); simpl in *; [lia|done].
Qed.

Lemma split_trailing sep s :
  split sep (s +:+ str sep) = split sep s ++ [EmptyString].
Proof.
  induction s as [|c rest IH].
  - simpl. by rewrite Ascii.eqb_refl.
  - simpl. destruct (Ascii.eqb c sep); [by rewrite IH|].
    rewrite IH. pose proof (split_length sep rest) as Hlen.
    destruct (split sep rest); [simpl in Hlen; lia|done].
Qed.

Lemma split_no_sep sep a : count_char sep a = 0 → split sep a = [a].
Proof.
  induction a as [|c rest IH]; [done|].
  simpl. destruct (Ascii.eqb c sep); [done|].
  intros H. by rewrite IH.
Qed.

Lemma split_first sep a rest :
  count_char sep a = 0 →
  split sep (a +:+ String sep rest) = a :: split sep rest.
Proof.
  induction a as [|c a' IH].
  - intros _. simpl. by rewrite Ascii.eqb_refl.
  - simpl. destruct (Ascii.eqb c sep); [done|].
    intros H. by rewrite IH.
Qed.

(** ** The error paths *)

(** X8: when the input is a regular file and the read fails with [e], both
    versions call the callback exactly once, with [e] alone; nothing is
    printed and no write is attempted. *)
Theorem read_error_reaches_callback (fs : FileSystem)
    (callback : list arg → option js_error) (st : Stats) (e : js_error) :
  stat fs inputFile = inr st → isFile st = true →
  readFile fs inputFile = inl e →
  trace (getCustomers fs callback) = [Callback [Err e]]
  ∧ trace (getCustomers_okay fs callback) = [Callback [Err e]].
Proof.
  intros Hstat Hfile Hread. rewrite (getCustomers_okay_eq fs callback).
  pose proof (getCustomers_paths fs callback) as H.
  rewrite Hstat, Hfile, Hread in H. by destruct H as [-> _].
Qed.

(** X9: when the read yields [s] and the write of its serialisation fails
    with [e], both versions print the customers, attempt the write, and call
    the callback exactly once, with [e] alone. *)
Theorem write_error_reaches_callback (fs : FileSystem)
    (callback : list arg → option js_error) (st : Stats) (s json : string)
    (e : js_error) :
  stat fs inputFile = inr st → isFile st = true →
  readFile fs inputFile = inr s →
  spec_json s = Some json →
  writeFile fs "./customers.json" json = Some e →
  trace (getCustomers fs callback)
    = [ConsoleLog (customers_of_csv s); WriteFile "./customers.json" json;
       Callback [Err e]]
  ∧ trace (getCustomers_okay fs callback)
    = [ConsoleLog (customers_of_csv s); WriteFile "./customers.json" json;
       Callback [Err e]].
Proof.
  intros Hstat Hfile Hread Hjson Hwrite.
  rewrite (getCustomers_okay_eq fs callback).
  pose proof (getCustomers_paths fs callback) as H.
  rewrite Hstat, Hfile, Hread in H.
  destruct H as (json' & Hjson' & H). rewrite Hjson in Hjson'.
  injection Hjson' as <-. rewrite Hwrite in H. by destruct H as [-> _].
Qed.

(** ** What holds on every path *)

(** X10: whatever the file system answers and whatever the callback does,
    neither version calls the callback more than once. *)
Theorem callback_called_at_most_once (fs : FileSystem)
    (callback : list arg → option js_error) :
  length (callback_calls (trace (getCustomers fs callback))) ≤ 1
  ∧ length (callback_calls (trace (getCustomers_okay fs callback))) ≤ 1.
Proof.
  rewrite (getCustomers_okay_eq fs callback).
  assert (length (callback_calls (trace (getCustomers fs callback))) ≤ 1);
    [|done].
  pose proof (getCustomers_paths fs callback) as H.
  destruct (stat fs inputFile) as [e|st].
  - destruct H as [-> _]. simpl. lia.
  - destruct (isFile st).
    + destruct (readFile fs inputFile) as [e|s].
      * destruct H as [-> _]. simpl. lia.
      * destruct H as (json & _ & -> & _). simpl. lia.
    + destruct H as [-> _]. simpl. lia.
Qed.

(** X11: the callback is told of success only after the write: whenever it
    is called with null and a text, that same text has been handed to
    [fs.writeFile] for ./customers.json just before, and the write has
    succeeded. *)
Theorem success_only_after_write (fs : FileSystem)
    (callback : list arg → option js_error) (json : string) :
  [Null; Str json] ∈ callback_calls (trace (getCustomers fs callback)) →
  writeFile fs "./customers.json" json = None
  ∧ ∃ customers,
      trace (getCustomers fs callback)
      = [ConsoleLog customers; WriteFile "./customers.json" json;
         Callback [Null; Str json]].
Proof.
  pose proof (getCustomers_paths fs callback) as H.
  destruct (stat fs inputFile) as [e|st].
  - destruct H as [-> _]. simpl. by intros ?%elem_of_nil.
  - destruct (isFile st).
    + destruct (readFile fs inputFile) as [e|s].
      * destruct H as [-> _]. simpl.
        intros Hin%list_elem_of_singleton. discriminate.
      * destruct H as (json' & _ & -> & _). simpl.
        intros Hin%list_elem_of_singleton.
        destruct (writeFile fs "./customers.json" json') eqn:Hw;
          [discriminate|].
        injection Hin as ->. eauto.
    + destruct H as [-> _]. simpl. by intros ?%elem_of_nil.
Qed.

(** X12: no file but ./customers.json is ever written, and it is written
    only when the input is a regular file that could be read; what is
    written is the serialisation of the content read. *)
Theorem only_customers_json_is_written (fs : FileSystem)
    (callback : list arg → option js_error) (path data : string) :
  WriteFile path data ∈ trace (getCustomers fs callback) →
  path = "./customers.json"
  ∧ ∃ st s, stat fs inputFile = inr st ∧ isFile st = true
            ∧ readFile fs inputFile = inr s ∧ spec_json s = Some data.
Proof.
  pose proof (getCustomers_paths fs callback) as H.
  destruct (stat fs inputFile) as [e|st] eqn:Hstat.
  - destruct H as [-> _]. by intros ?%elem_of_nil.
  - destruct (isFile st) eqn:Hfile.
    + destruct (readFile fs inputFile) as [e|s] eqn:Hread.
      * destruct H as [-> _]. intros Hin%list_elem_of_singleton. discriminate.
      * destruct H as (json & Hjson & -> & _).
        rewrite !elem_of_cons. intros [Hin|[Hin|[Hin|Hin%elem_of_nil]]];
          try discriminate; [|done].
        injection Hin as -> ->. split; [done|]. by exists st, s.
    + destruct H as [-> _]. intros Hin%list_elem_of_singleton. discriminate.
Qed.

(** X13: the plain version does not catch what the callback throws: when
    the callback has been called, with [args], and throws [e] on them, the
    exception leaves [getCustomers]'s own callback uncaught. *)
Theorem callback_exception_is_uncaught (fs : FileSystem)
    (callback : list arg → option js_error) (args : list arg) (e : js_error) :
  callback_calls (trace (getCustomers fs callback)) = [args] →
  callback args = Some e →
  outcome (getCustomers fs callback) = inl e.
Proof.
  pose proof (getCustomers_paths fs callback) as H.
  destruct (stat fs inputFile) as [e'|st].
  - destruct H as [-> _]. discriminate.
  - destruct (isFile st).
    + destruct (readFile fs inputFile) as [e'|s].
      * destruct H as [-> ->]. intros Hc Hthrow.
        simpl in Hc. injection Hc as <-.
        by rewrite outcome_invoke, Hthrow.
      * destruct H as (json & _ & -> & ->). intros Hc Hthrow.
        simpl in Hc. injection Hc as <-.
        by rewrite outcome_invoke, Hthrow.
    + destruct H as [-> _]. discriminate.
Qed.

(** ** The lines of the file *)

(** X15: the array has one customer more than the content has newlines: an
    empty file gives one customer, and a file that ends with a newline gives
    a last customer whose id is the empty string and who has no
    first_name. *)
Theorem one_customer_per_line_break (s : string) :
  length (customers_of_csv s) = S (count_char LF s)
  ∧ customers_of_csv (s +:+ str LF)
    = customers_of_csv s ++ [{| id := Some EmptyString; first_name := None |}].
Proof.
  unfold customers_of_csv. split.
  - by rewrite length_map, split_length.
  - rewrite split_trailing. by rewrite List.map_app.
Qed.

(** X16: a line is read by its first two columns. With [a] and [b] free of
    commas: the line [a] alone gives id [a] and no first_name; the line
    [a,b] followed by any further columns gives id [a] and first_name [b],
    and the further columns are ignored. *)
Theorem customer_has_first_two_columns (a b rest : string) :
  count_char comma a = 0 → count_char comma b = 0 →
  customer_of_line a = {| id := Some a; first_name := None |}
  ∧ customer_of_line (a +:+ String comma b)
    = {| id := Some a; first_name := Some b |}
  ∧ customer_of_line (a +:+ String comma (b +:+ String comma rest))
    = {| id := Some a; first_name := Some b |}.
Proof.
  intros Ha Hb. unfold customer_of_line. cbv zeta.
  rewrite (split_no_sep comma a Ha).
  rewrite !(split_first comma a _ Ha).
  rewrite (split_no_sep comma b Hb), (split_first comma b rest Hb).
  done.
Qed.

Lemma read_error_reaches_callback_witness :
  trace (getCustomers fs_unreadable quiet)
    = [Callback [Err (Error "EACCES: permission denied")]]
  ∧ trace (getCustomers_okay fs_unreadable quiet)
    = [Callback [Err (Error "EACCES: permission denied")]].
Proof.
  apply (read_error_reaches_callback fs_unreadable quiet {| isFile := true |});
    reflexivity.
Defined.

Lemma write_error_reaches_callback_witness :
  trace (getCustomers fs_readonly quiet)
    = [ConsoleLog (customers_of_csv sample_csv);
       WriteFile "./customers.json" sample_json;
       Callback [Err (Error "EROFS: read-only file system")]]
  ∧ trace (getCustomers_okay fs_readonly quiet)
    = [ConsoleLog (customers_of_csv sample_csv);
       WriteFile "./customers.json" sample_json;
       Callback [Err (Error "EROFS: read-only file system")]].
Proof.
  apply (write_error_reaches_callback fs_readonly quiet {| isFile := true |}
           sample_csv sample_json);
    reflexivity.
Defined.

Lemma success_only_after_write_witness :
  writeFile fs_ok "./customers.json" sample_json = None
  ∧ ∃ customers,
      trace (getCustomers fs_ok quiet)
      = [ConsoleLog customers; WriteFile "./customers.json" sample_json;
         Callback [Null; Str sample_json]].
Proof.
  apply (success_only_after_write fs_ok quiet sample_json).
  apply list_elem_of_here.
Defined.

Lemma only_customers_json_is_written_witness :
  "./customers.json" = "./customers.json"
  ∧ ∃ st s, stat fs_readonly inputFile = inr st ∧ isFile st = true
            ∧ readFile fs_readonly inputFile = inr s
            ∧ spec_json s = Some sample_json.
Proof.
  apply (only_customers_json_is_written fs_readonly quiet
           "./customers.json" sample_json).
  apply list_elem_of_further, list_elem_of_here.
Defined.

Lemma callback_exception_is_uncaught_witness :
  outcome (getCustomers fs_ok angry) = inl (Error "callback failed").
Proof.
  apply (callback_exception_is_uncaught fs_ok angry [Null; Str sample_json]);
    reflexivity.
Defined.

Lemma customer_has_first_two_columns_witness :
  customer_of_line "7"
    = {| id := Some "7"; first_name := None |}
  ∧ customer_of_line ("7" +:+ String comma "Eve")
    = {| id := Some "7"; first_name := Some "Eve" |}
  ∧ customer_of_line ("7" +:+ String comma ("Eve" +:+ String comma "x,y"))
    = {| id := Some "7"; first_name := Some "Eve" |}.
Proof.
  apply (customer_has_first_two_columns "7" "Eve" "x,y"); reflexivity.
Defined.

End CustomersMore.


(* ===================================================================== *)
(** * Properties of the error-first listings *)
(* ===================================================================== *)

Module ErrorFirstFacts.
Import ErrorFirst.

(** X17: the compact form of the [writeFile] closure is a refactoring: for
    every value passed as error, however it converts to a boolean, and for
    every callback, both forms make the same call and return what it
    returns. *)
Theorem writeFile_compact_same {Value Customers Result : Type}
    (truthy : Value → bool) (inputFile : string) (customers : Customers)
    (callback : list (carg Value Customers) → Result) (error : Value) :
  writeFile_compact truthy inputFile customers callback error
  = writeFile truthy inputFile customers callback error.
Proof. unfold writeFile_compact, writeFile. by destruct (truthy error). Qed.

Section Random.
Context {Value : Type}.
Variable truthy : Value → bool.
Variable greater : Value → Value → bool.
Variable generator : Value → Value * Value.

(** X18: [generateRandomNumber] calls its callback exactly once, as the last
    thing it does, and always with an error or with null in the first
    place; the generator is started if and only if the limit is truthy. *)
Theorem generateRandomNumber_calls_back_once (limit : Value)
    (callback : list (rarg Value) → list (revent Value)) :
  ∃ args,
    generateRandomNumber truthy greater generator limit callback
    = (if truthy limit then [Generate limit] else []) ++ callback args
    ∧ (args = [RNewError "Limit not provided"] ∧ truthy limit = false
       ∨ ∃ first second, args = [first; second] ∧ truthy limit = true
           ∧ (first = RNull ∨ truthy_arg truthy first = true)).
Proof.
  unfold generateRandomNumber. destruct (truthy limit); simpl.
  - destruct (generator limit) as [error number].
    destruct (greater number limit); [|destruct (truthy error) eqn:He];
      eexists; (split; [done|]); right; eexists _, _; eauto.
  - eexists. split; [done|]. by left.
Qed.

(** X19: a number is handed over without an error only if the limit is
    truthy, the generator reported no error with it, and the number is not
    greater than the limit. *)
Theorem number_without_error_is_within_limit (limit number : Value) :
  Called [RNull; RValue number]
    ∈ generateRandomNumber truthy greater generator limit record →
  truthy limit = true
  ∧ greater number limit = false
  ∧ ∃ error, generator limit = (error, number) ∧ truthy error = false.
Proof.
  unfold generateRandomNumber, record. destruct (truthy limit); simpl.
  - destruct (generator limit) as [error number'].
    destruct (greater number' limit) eqn:Hg;
      [|destruct (truthy error) eqn:He];
      rewrite !elem_of_cons;
      intros [H|[H|H%elem_of_nil]]; try discriminate; try done.
    injection H as ->. eauto.
  - intros H%list_elem_of_singleton. discriminate.
Qed.

(** X20: the caller of the article prints exactly one line after the
    generator has been started or skipped; it prints to [console.log] only
    a number that is not greater than the limit and came without an error,
    and to [console.error] in every other case. *)
Theorem caller_prints_one_line (limit : Value) :
  ∃ line,
    generateRandomNumber truthy greater generator limit (print_result truthy)
    = (if truthy limit then [Generate limit] else []) ++ [line]
    ∧ match line with
      | ConsoleLog x =>
          ∃ number, x = RValue number
            ∧ truthy limit = true
            ∧ greater number limit = false
            ∧ (generator limit).2 = number
            ∧ truthy (generator limit).1 = false
      | ConsoleError x => truthy_arg truthy x = true
      | _ => False
      end.
Proof.
  unfold generateRandomNumber, print_result.
  destruct (truthy limit) eqn:Hl; simpl.
  - destruct (generator limit) as [error number]. simpl.
    destruct (greater number limit) eqn:Hg; simpl.
    + eexists. split; [done|]. done.
    + destruct (truthy error) eqn:He; simpl; rewrite ?He.
      * eexists. split; [done|]. done.
      * eexists. split; [done|]. simpl. by exists number.
  - eexists. split; [done|]. done.
Qed.

End Random.

Lemma number_without_error_is_within_limit_witness :
  sample_truthy (Some 7) = true
  ∧ sample_greater (Some 3) (Some 7) = false
  ∧ ∃ error, sample_generator (Some 7) = (error, Some 3)
             ∧ sample_truthy error = false.
Proof.
  apply (number_without_error_is_within_limit sample_truthy sample_greater
           sample_generator (Some 7) (Some 3)).
  apply list_elem_of_further, list_elem_of_here.
Defined.

End ErrorFirstFacts.


(* ===================================================================== *)
(** * Properties of the dependency map *)
(* ===================================================================== *)

Module ServerPushFacts.
Import Customers CustomersText ServerPush.

Lemma count_char_tail c c' s :
  count_char c (String c' s) = 0 → Ascii.eqb c' c = false ∧ count_char c s = 0.
Proof. simpl. destruct (Ascii.eqb c' c); [lia|]. by intros H. Qed.

Lemma up_to_last_quote_none post :
  count_char dquote post = 0 → up_to_last_quote post = None.
Proof.
  induction post as [|c post IH]; [done|].
  intros [Hc Hpost]%count_char_tail. simpl. by rewrite IH, Hc.
Qed.

Lemma up_to_last_quote_some mid post :
  count_char dquote post = 0 →
  up_to_last_quote (mid +:+ String dquote post) = Some mid.
Proof.
  intros Hpost. induction mid as [|c mid IH].
  - simpl. by rewrite (up_to_last_quote_none post Hpost).
  - simpl. by rewrite IH.
Qed.

Lemma expect_after_spaces (c : ascii) k t :
  Ascii.eqb c " " = false →
  expect c (skip_spaces (spaces k +:+ String c t)) = Some t.
Proof.
  intros Hc. induction k as [|k IH].
  - simpl. rewrite Hc. simpl. by rewrite Ascii.eqb_refl.
  - exact IH.
Qed.

Lemma append_empty_l (s : string) : EmptyString +:+ s = s.
Proof. reflexivity. Qed.

Lemma match_here_src a b t :
  match_here ("src" +:+ spaces a +:+ String "=" (spaces b +:+ String dquote t))
  = up_to_last_quote (dot_run t).
Proof.
  unfold match_here. simpl. rewrite append_empty_l.
  rewrite (expect_after_spaces "=" a _ eq_refl).
  by rewrite (expect_after_spaces dquote b _ eq_refl).
Qed.

(** Nothing matches at a position before the attribute when no equals sign
    precedes the attribute. *)
Lemma expect_equals_none q t :
  count_char "=" q = 0 → expect "=" (skip_spaces (q +:+ "src" +:+ t)) = None.
Proof.
  induction q as [|c q IH]; [done|].
  intros [Hc Hq]%count_char_tail. simpl.
  destruct (Ascii.eqb c " "); [by apply IH|].
  simpl. by rewrite Hc.
Qed.

Lemma match_here_before c p t :
  count_char "=" (String c p) = 0 →
  match_here (String c p +:+ "src" +:+ t) = None.
Proof.
  intros [_ Hp]%count_char_tail. unfold match_here. simpl.
  destruct (Ascii.eqb c "s"); [|done].
  destruct p as [|c2 p2]; [done|].
  apply count_char_tail in Hp as [_ Hp2]. simpl.
  destruct (Ascii.eqb c2 "r"); [|done].
  destruct p2 as [|c3 p3]; [done|].
  apply count_char_tail in Hp2 as [_ Hp3]. simpl.
  destruct (Ascii.eqb c3 "c"); [|done].
  by rewrite (expect_equals_none p3 t Hp3).
Qed.

Lemma src_match_leftmost pre t g :
  count_char "=" pre = 0 →
  match_here ("src" +:+ t) = Some g →
  src_match (pre +:+ "src" +:+ t) = Some g.
Proof.
  intros Hpre Hm. induction pre as [|c pre IH].
  - change (EmptyString +:+ "src" +:+ t) with (String "s" ("rc" +:+ t)).
    change ("src" +:+ t) with (String "s" ("rc" +:+ t)) in Hm.
    cbn [src_match]. by rewrite Hm.
  - change (String c pre +:+ "src" +:+ t)
      with (String c (pre +:+ "src" +:+ t)).
    cbn [src_match].
    change (String c (pre +:+ "src" +:+ t))
      with (String c pre +:+ "src" +:+ t).
    rewrite (match_here_before c pre t Hpre).
    apply IH. by apply count_char_tail in Hpre as [_ ?].
Qed.

Lemma map_group_filter lines :
  map_group
    (List.filter
       (λ line, match src_match line with Some _ => true | None => false end)
       lines)
  = inr (omap src_match lines).
Proof.
  induction lines as [|line rest IH]; [done|].
  simpl. destruct (src_match line) as [g|] eqn:Hm; [|done].
  simpl. by rewrite Hm, IH.
Qed.

Lemma omap_length_le {A B} (f : A → option B) (l : list A) :
  length (omap f l) ≤ length l.
Proof.
  induction l as [|x l IH]; [done|].
  cbn. destruct (f x); cbn in *; lia.
Qed.

(** X21: on a line whose first equals sign belongs to a src attribute, the
    captured name runs from the opening double quote to the last double
    quote of the line: it is the attribute's value when no double quote
    follows the attribute, and it swallows everything up to the last quote
    when further quoted attributes follow on the same line. Spaces around
    the equals sign are allowed. *)
Theorem src_captures_up_to_last_quote (pre : string) (a b : nat)
    (mid post : string) :
  count_char "=" pre = 0 → count_char dquote post = 0 →
  no_line_terminator (mid +:+ String dquote post) →
  src_match (pre +:+ "src" +:+ spaces a
               +:+ String "=" (spaces b +:+ String dquote
                                 (mid +:+ String dquote post)))
  = Some mid.
Proof.
  intros Hpre Hpost Hline.
  apply src_match_leftmost; [done|].
  rewrite match_here_src. unfold no_line_terminator in Hline.
  rewrite Hline. by apply up_to_last_quote_some.
Qed.

(** X22: building a file's entry never throws: the lines that [filter]
    keeps are those on which [map] finds a match. The entry lists group 1
    of the leftmost match of every matching line, in the order of the
    lines, at most one name per line. *)
Theorem dependencies_never_throw (content : string) :
  dependencies content = inr (omap src_match (split LF content))
  ∧ length (omap src_match (split LF content)) ≤ S (count_char LF content).
Proof.
  split; [apply map_group_filter|].
  rewrite <- CustomersMore.split_length. apply omap_length_le.
Qed.

Lemma src_captures_up_to_last_quote_witness :
  src_match (script_tag "bundle.js") = Some "bundle.js"
  ∧ src_match ("<img src=" +:+ String dquote
                 ("a.gif" +:+ String dquote
                    (" alt=" +:+ String dquote ("x" +:+ String dquote ">"))))
    = Some ("a.gif" +:+ String dquote (" alt=" +:+ String dquote "x")).
Proof.
  split.
  - apply (src_captures_up_to_last_quote "  <script " 0 0 "bundle.js"
             "/></script>"); reflexivity.
  - apply (src_captures_up_to_last_quote "<img " 0 0
             ("a.gif" +:+ String dquote (" alt=" +:+ String dquote "x"))
             ">"); reflexivity.
Defined.

(** The article's example: the entry of its index.html. *)
Example index_html_dependencies :
  dependencies index_html
  = inr ["bundle.js"; "node-university-animation.gif"; "bundle2.js"].
Proof. reflexivity. Qed.

End ServerPushFacts.
